(** * siteManager: the login gate of [main.py] and the helpers of [Utility.py]

    A shallow embedding of the two Python modules and the properties of
    their handlers.  Python [str] values are sequences of Unicode code
    points; dictionaries ([os.environ], [request.form], [session]) are
    finite maps keyed by the literal names the code uses. *)

From Stdlib Require Import NArith ZArith Ascii String.
From stdpp Require Import base numbers option list strings gmap.

Local Open Scope N_scope.

(** ** Python values *)

Module Py.

(** A [str] is a sequence of code points. *)
Abbreviation pystr := (list N).

(** The code points of an ASCII literal of the source. *)
Definition str (s : string) : pystr :=
  N_of_ascii <$> list_ascii_of_string s.

(** The values that flow through the handlers: [None] or a [str]. *)
Inductive pyval : Type :=
  | PNone
  | PStr (s : pystr).

#[export] Instance pyval_eq_dec : EqDecision pyval.
Proof. solve_decision. Defined.

(** [a == b] and [a != b]. *)
Definition py_eq (a b : pyval) : bool := bool_decide (a = b).
Definition py_ne (a b : pyval) : bool := negb (py_eq a b).

(** [a is None]. *)
Definition is_none (a : pyval) : bool :=
  match a with PNone => true | PStr _ => false end.

(** [d.get(k)] on a mapping whose values are strings: [None] when absent. *)
Definition get_str (d : gmap string pystr) (k : string) : pyval :=
  match d !! k with
  | Some v => PStr v
  | None => PNone
  end.

(** [d.get(k, dflt)] on a mapping of Python values. *)
Definition dict_get (d : gmap string pyval) (k : string) (dflt : pyval) : pyval :=
  default dflt (d !! k).

(** [d.pop(k, None)], keeping only the mapping that results. *)
Definition dict_pop (d : gmap string pyval) (k : string) : gmap string pyval :=
  delete k d.

(** [v[lo:hi]] for non-negative bounds; subscripting [None] is a [TypeError]. *)
Definition slice (v : pyval) (lo hi : nat) : option pystr :=
  match v with
  | PStr s => Some (take (hi - lo) (drop lo s))
  | PNone => None
  end.

(** [str.upper] on one ASCII code point. *)
Definition ascii_upper (c : N) : N :=
  if (97 <=? c) && (c <=? 122) then c - 32 else c.

Section Upper.
(** Unicode's full upper-case mapping of the code points above ASCII: a
    table of the interpreter, one code point may map to several. *)
Variable upper_table : N → list N.

Definition cp_upper (c : N) : list N :=
  if c <? 128 then [ascii_upper c] else upper_table c.

(** [s.upper()]. *)
Definition upper (s : pystr) : pystr := s ≫= cp_upper.
End Upper.

End Py.

Import Py.

(** ** Utility.py *)

Module Utility.

(** The file system as [pathlib] sees it in [glob]: the names of the entries
    of each directory, [None] for a path that is not a directory. *)
Definition filesystem : Type := pystr → option (list pystr).

(** The calls a function makes on the file system. *)
Inductive syscall : Type :=
  | Scandir (p : pystr)
  | OpenRead (p : pystr).

(** Computations that read the file system and record their calls. *)
Definition IO (A : Type) : Type := filesystem → A * list syscall.

#[export] Instance io_ret : MRet IO := λ A a _, (a, []).

#[export] Instance io_bind : MBind IO := λ A B k m fs,
  let '(a, t1) := m fs in
  let '(b, t2) := k a fs in
  (b, t1 ++ t2).

Definition scandir (p : pystr) : IO (option (list pystr)) :=
  λ fs, (fs p, [Scandir p]).

(** *** Pure POSIX paths *)

Record PosixPath : Type := { root : pystr; parts : list pystr }.

(** [s.split("/")]. *)
Fixpoint split_slash (s : pystr) : list pystr :=
  match s with
  | [] => [[]]
  | c :: s' =>
      if c =? 47 then [] :: split_slash s'
      else match split_slash s' with
           | hd :: tl => (c :: hd) :: tl
           | [] => [[c]]
           end
  end.

(** One leading slash is the root, exactly two are kept, three or more
    collapse to one. *)
Definition parse_root (s : pystr) : pystr :=
  match s with
  | 47 :: 47 :: 47 :: _ => [47]
  | 47 :: 47 :: _ => [47; 47]
  | 47 :: _ => [47]
  | _ => []
  end.

(** Empty components and ["."] components are dropped. *)
Definition keep_part (x : pystr) : bool :=
  negb (bool_decide (x = [])) && negb (bool_decide (x = [46])).

(** [Path(s)]. *)
Definition Path (s : pystr) : PosixPath :=
  {| root := parse_root s; parts := List.filter keep_part (split_slash s) |}.

(** ["/".join(xs)]. *)
Fixpoint join_slash (xs : list pystr) : pystr :=
  match xs with
  | [] => []
  | [x] => x
  | x :: xs' => x ++ 47 :: join_slash xs'
  end.

(** [str(p)]. *)
Definition path_str (p : PosixPath) : pystr :=
  match root p, parts p with
  | [], [] => [46]
  | r, ps => r ++ join_slash ps
  end.

(** [p / name] for the name of a directory entry. *)
Definition child (p : PosixPath) (name : pystr) : PosixPath :=
  {| root := root p; parts := parts p ++ [name] |}.

(** *** Shell wildcards: [*] is any run of characters, [?] any one character
    (bracket classes do not occur in the pattern the module uses). *)
Fixpoint fnmatch (pat name : pystr) {struct pat} : bool :=
  match pat with
  | [] => match name with [] => true | _ :: _ => false end
  | p :: pat' =>
      if p =? 42 then
        (fix star (n : pystr) : bool :=
           fnmatch pat' n || match n with [] => false | _ :: n' => star n' end) name
      else
        match name with
        | [] => false
        | c :: name' => ((p =? 63) || (p =? c)) && fnmatch pat' name'
        end
  end.

(** [p.glob(pattern)] for a one-component pattern: the entries of the
    directory whose name matches, each as a child of [p]; nothing when [p]
    is not a directory. *)
Definition glob (p : PosixPath) (pattern : pystr) : IO (list PosixPath) :=
  entries ← scandir (path_str p);
  mret (child p <$> List.filter (fnmatch pattern) (default [] entries)).

(** [ListConf]. *)
Definition ListConf (d_path : pystr) : IO (list pystr) :=
  let pth := Path d_path in
  found ← glob pth (str "*.conf");
  mret (path_str <$> found).

(** [extractServerName]. *)
Definition extractServerName (conf_path : pystr) : IO (list pystr) :=
  mret [].

End Utility.

(** ** main.py *)

Module Main.

(** *** Start of the process *)

(** [os.getenv(k)] on the environment left by [load_dotenv()]. *)
Definition getenv (environ : gmap string pystr) (k : string) : pyval :=
  get_str environ k.

(** Levels of the [logging] module. *)
Definition WARNING : N := 30.
Definition CRITICAL : N := 50.

Record log_record : Type := { levelno : N; message : pystr }.

(** [logging.basicConfig(level=logging.WARNING, filename="debug.log")]. *)
Definition root_level : N := WARNING.

(** [logging.critical(msg)]: appended to the log file when the level passes. *)
Definition logging_critical (msg : pystr) (log : list log_record) : list log_record :=
  if root_level <=? CRITICAL
  then log ++ [{| levelno := CRITICAL; message := msg |}]
  else log.

(** The status the process ends with on [exit(code)]; [exit()] passes [None]. *)
Definition exit_status (code : option Z) : Z := default 0%Z code.

Inductive startup_result : Type :=
  | Exited (log : list log_record) (status : Z)
  | Serving (log : list log_record).

(** The module-level check that precedes the routes and [app.run]. *)
Definition startup (environ : gmap string pystr) : startup_result :=
  if is_none (getenv environ "MAIL") || is_none (getenv environ "PASSWD")
  then Exited (logging_critical (str "Env variable not found!!!") []) (exit_status None)
  else Serving [].

(** *** Requests and responses *)

Inductive method : Type := GET | POST.

#[export] Instance method_eq_dec : EqDecision method.
Proof. solve_decision. Defined.

Record request : Type :=
  { req_method : method; req_path : string; req_form : gmap string pystr }.

(** The [context] dictionaries handed to [render_template]. *)
Inductive context : Type :=
  | Toast (showToast : bool) (type msg : pystr)
  | Avatar (avtr : pystr).

Inductive response : Type :=
  | Body (text : pystr)
  | Redirect (location : string)
  | Render (template : string) (ctx : context)
  | MethodNotAllowed
  | NotFound
  | TypeError.

(** [url_for(endpoint)] over the routes of the module. *)
Definition url_for (endpoint : string) : string :=
  if decide (endpoint = "home") then "/"
  else if decide (endpoint = "login") then "/login"
  else if decide (endpoint = "logout") then "/logout"
  else "/dashboard".

(** *** Handlers: each returns its response and the session it leaves *)

Section Handlers.
Variable upper_table : N → list N.

Definition home : response := Body (str "hello i am a tiny pea!!!").

Definition login (environ : gmap string pystr) (m : method)
    (form : gmap string pystr) (session : gmap string pyval)
    : response * gmap string pyval :=
  if py_eq (dict_get session "user-mail" PNone) (getenv environ "MAIL")
  then (Redirect (url_for "dashboard"), session)
  else
    match m with
    | POST =>
        let mail := get_str form "usr-email" in
        let passwd := get_str form "usr-passwd" in
        if py_ne mail (getenv environ "MAIL")
        then (Render "login.html"
                (Toast true (str "error") (str "Invalid User Email")), session)
        else if py_ne passwd (getenv environ "PASSWD")
        then (Render "login.html"
                (Toast true (str "error") (str "Invalid User Password")), session)
        else (Redirect (url_for "dashboard"), <["user-mail" := mail]> session)
    | GET => (Render "login.html" (Toast false [] []), session)
    end.

Definition logout (session : gmap string pyval) : response * gmap string pyval :=
  if py_eq (dict_get session "user-mail" PNone) PNone
  then (Redirect (url_for "home"), session)
  else (Redirect (url_for "home"), dict_pop session "user-mail").

Definition dashboard (environ : gmap string pystr) (session : gmap string pyval)
    : response * gmap string pyval :=
  if py_ne (dict_get session "user-mail" PNone) (getenv environ "MAIL")
  then (Redirect (url_for "login"), session)
  else
    match slice (dict_get session "user-mail" (PStr (str "XD"))) 0 2 with
    | Some initials =>
        (Render "dashboard.html" (Avatar (upper upper_table initials)), session)
    | None => (TypeError, session)
    end.

(** The routes: [/] and [/logout] accept GET, the other two GET and POST. *)
Definition dispatch (environ : gmap string pystr) (req : request)
    (session : gmap string pyval) : response * gmap string pyval :=
  if decide (req_path req = "/") then
    match req_method req with
    | GET => (home, session)
    | POST => (MethodNotAllowed, session)
    end
  else if decide (req_path req = "/login") then
    login environ (req_method req) (req_form req) session
  else if decide (req_path req = "/logout") then
    match req_method req with
    | GET => logout session
    | POST => (MethodNotAllowed, session)
    end
  else if decide (req_path req = "/dashboard") then
    dashboard environ session
  else (NotFound, session).

(** *** The process: stopped by the startup check, or serving one client's
    session, empty when the client first connects. *)
Inductive server : Type :=
  | Stopped (status : Z)
  | Running (session : gmap string pyval).

Definition boot (environ : gmap string pystr) : server :=
  match startup environ with
  | Exited _ status => Stopped status
  | Serving _ => Running ∅
  end.

Inductive step (environ : gmap string pystr)
    : server → request → response → server → Prop :=
  | step_request session req :
      step environ (Running session) req
        (dispatch environ req session).1
        (Running (dispatch environ req session).2).

Inductive reachable (environ : gmap string pystr) : server → Prop :=
  | reach_boot : reachable environ (boot environ)
  | reach_step sv req resp sv' :
      reachable environ sv → step environ sv req resp sv' →
      reachable environ sv'.
End Handlers.

End Main.

(** ** The session gate, in the words the properties use *)

Module Gate.
Import Main.

(** The guard of [login] (and, negated, of [dashboard]): the session's
    [user-mail] equals the expected mail. *)
Definition is_authenticated (environ : gmap string pystr)
    (session : gmap string pyval) : bool :=
  py_eq (dict_get session "user-mail" PNone) (getenv environ "MAIL").

(** The two failure renderings of [login] and its success response. *)
Definition InvalidMail : response :=
  Render "login.html" (Toast true (str "error") (str "Invalid User Email")).
Definition InvalidPassword : response :=
  Render "login.html" (Toast true (str "error") (str "Invalid User Password")).
Definition ToDashboard : response := Redirect "/dashboard".

(** A request that submits the login form and is answered by the redirect
    to the dashboard. *)
Definition login_succeeded (req : request) (resp : response) : Prop :=
  req_path req = "/login" ∧ req_method req = POST ∧ resp = ToDashboard.

(** A request that submits exactly the expected credentials. *)
Definition submits_credentials (environ : gmap string pystr) (req : request) : Prop :=
  req_path req = "/login" ∧ req_method req = POST
  ∧ get_str (req_form req) "usr-email" = getenv environ "MAIL"
  ∧ get_str (req_form req) "usr-passwd" = getenv environ "PASSWD".

(** The session stores only strings under [user-mail]. *)
Definition mail_is_str (session : gmap string pyval) : Prop :=
  session !! "user-mail" ≠ Some PNone.

(** C4 read literally: the startup check stops the process with a critical
    log entry and a status other than zero. *)
Definition aborts_with_failure (environ : gmap string pystr) : Prop :=
  ∃ log status, startup environ = Exited log status
    ∧ (∃ r, r ∈ log ∧ levelno r = CRITICAL)
    ∧ status ≠ 0%Z.

(** C5 read literally: an empty credential stops the process. *)
Definition refuses_empty (environ : gmap string pystr) : Prop :=
  environ !! "MAIL" = Some [] ∨ environ !! "PASSWD" = Some [] →
  ∃ log status, startup environ = Exited log status.

Section Reach.
Variable upper_table : N → list N.

(** The states the process reaches while no login has succeeded. *)
Inductive reachable_anon (environ : gmap string pystr) : server → Prop :=
  | anon_boot : reachable_anon environ (boot environ)
  | anon_step sv req resp sv' :
      reachable_anon environ sv →
      step upper_table environ sv req resp sv' →
      ¬ login_succeeded req resp →
      reachable_anon environ sv'.
End Reach.

End Gate.

(** ** One client's requests, served in order *)

Module Trace.
Import Main.

Section Serve.
Variable upper_table : N → list N.

End Serve.

End Trace.

(** ** Utility.py: creating the backup directory *)

Module Dirs.
Import Utility.

(** The tree of the file system, keyed by the path strings the operating
    system receives: a file, or a directory with the names of its entries.
    Names are opaque: [..] and symbolic links are not resolved. *)
Inductive node : Type :=
  | File
  | Dir (entries : list pystr).

Inductive oserror : Type :=
  | FileExistsError
  | FileNotFoundError
  | NotADirectoryError.

(** [p.parent] and [p.name]. *)
Definition parent (p : PosixPath) : PosixPath :=
  {| root := root p; parts := removelast (parts p) |}.

Definition name (p : PosixPath) : pystr := List.last (parts p) [].

(** [os.mkdir(p)]: the directory above must exist and be a directory, the
    path itself must not exist. *)
Definition os_mkdir (p : PosixPath) (t : gmap pystr node)
    : oserror + gmap pystr node :=
  match t !! path_str (parent p) with
  | None => inl FileNotFoundError
  | Some File => inl NotADirectoryError
  | Some (Dir siblings) =>
      match t !! path_str p with
      | Some _ => inl FileExistsError
      | None =>
          inr (<[path_str p := Dir []]>
                 (<[path_str (parent p) := Dir (siblings ++ [name p])]> t))
      end
  end.

(** [p.is_dir()]. *)
Definition is_dir (p : PosixPath) (t : gmap pystr node) : bool :=
  match t !! path_str p with
  | Some (Dir _) => true
  | _ => false
  end.

(** [p.mkdir(exist_ok=exist_ok)], with [parents] left at [False]: a missing
    parent is raised again, any other error is raised again unless
    [exist_ok] holds and the path is a directory. *)
Definition mkdir (p : PosixPath) (exist_ok : bool) (t : gmap pystr node)
    : oserror + gmap pystr node :=
  match os_mkdir p t with
  | inr t' => inr t'
  | inl FileNotFoundError => inl FileNotFoundError
  | inl e => if negb exist_ok || negb (is_dir p t) then inl e else inr t
  end.

(** [initBKPDir]. *)
Definition initBKPDir (d_path : pystr) (t : gmap pystr node)
    : oserror + gmap pystr node :=
  mkdir (Path d_path) true t.

(** What [glob] reads of the tree. *)
Definition listing (t : gmap pystr node) : filesystem :=
  λ p, match t !! p with
       | Some (Dir entries) => Some entries
       | _ => None
       end.

End Dirs.

(** ** Properties of Utility.py *)

Module UtilityProofs.
Import Utility.

(** A directory [/tmp/empty] holding [x.conf] and [y.txt], nothing else. *)
Definition fs_two_files : filesystem :=
  λ p, if decide (p = str "/tmp/empty")
       then Some [str "x.conf"; str "y.txt"]
       else None.


(** One unfolding of the star case of the matcher. *)
Lemma fnmatch_star_unfold pat name :
  fnmatch (42 :: pat) name
  = fnmatch pat name
    || match name with [] => false | _ :: name' => fnmatch (42 :: pat) name' end.
Proof. destruct name; reflexivity. Qed.

(** A star absorbs any prefix of the name. *)
Lemma fnmatch_star pat name :
  fnmatch (42 :: pat) name = true
  ↔ ∃ pre rest, name = pre ++ rest ∧ fnmatch pat rest = true.
Proof.
  induction name as [|c name IH]; rewrite fnmatch_star_unfold.
  - rewrite orb_false_r. split.
    + intros H. by exists [], [].
    + intros (pre & rest & Heq & H).
      symmetry in Heq. apply app_eq_nil in Heq as [-> ->]. done.
  - rewrite orb_true_iff, IH. split.
    + intros [H | (pre & rest & -> & H)].
      * by exists [], (c :: name).
      * by exists (c :: pre), rest.
    + intros (pre & rest & Heq & H). destruct pre as [|c' pre]; simpl in Heq.
      * left. by subst rest.
      * right. injection Heq as -> ->. by exists pre, rest.
Qed.

(** A pattern free of wildcards matches itself only. *)
Lemma fnmatch_literal pat name :
  Forall (λ p, p ≠ 42 ∧ p ≠ 63) pat →
  fnmatch pat name = true ↔ name = pat.
Proof.
  intros Hlit. revert name.
  induction Hlit as [|p pat [H42 H63] Hrest IH]; intros name.
  - destruct name; simpl; split; congruence.
  - simpl. destruct (N.eqb_spec p 42) as [|_]; [done|].
    destruct name as [|c name]; [split; congruence|].
    destruct (N.eqb_spec p 63) as [|_]; [done|]. simpl.
    rewrite andb_true_iff, IH, N.eqb_eq. split.
    + by intros [-> ->].
    + intros [= -> ->]. done.
Qed.

(** [*.conf] selects the names that end in [.conf]. *)
Lemma fnmatch_conf name :
  fnmatch (str "*.conf") name = true ↔ str ".conf" `suffix_of` name.
Proof.
  change (str "*.conf") with (42 :: str ".conf").
  rewrite fnmatch_star. unfold suffix. split.
  - intros (pre & rest & -> & H). exists pre.
    apply fnmatch_literal in H as ->; [done|].
    repeat constructor; done.
  - intros [pre ->]. exists pre, (str ".conf"). split; [done|].
    apply fnmatch_literal; [|done]. repeat constructor; done.
Qed.

Lemma join_slash_snoc ps name :
  join_slash (ps ++ [name])
  = match ps with [] => name | _ :: _ => join_slash ps ++ 47 :: name end.
Proof.
  induction ps as [|x ps IH]; [done|].
  destruct ps as [|y ps]; [done|].
  change (join_slash ((x :: y :: ps) ++ [name]))
    with (x ++ 47 :: join_slash ((y :: ps) ++ [name])).
  rewrite IH. change (join_slash (x :: y :: ps)) with (x ++ 47 :: join_slash (y :: ps)).
  by rewrite <- app_assoc.
Qed.

(** The string of a child: the name alone under the current directory, the
    directory's string, a slash and the name under a directory with
    components. *)
Lemma path_str_child p name :
  path_str (child p name)
  = match parts p with
    | [] => root p ++ name
    | _ :: _ => path_str p ++ 47 :: name
    end.
Proof.
  unfold path_str, child. cbn [root parts].
  destruct (parts p) as [|x ps].
  - simpl. by destruct (root p).
  - pose proof (join_slash_snoc (x :: ps) name) as Hj.
    change ((x :: ps) ++ [name]) with (x :: (ps ++ [name])) in Hj |- *.
    destruct (root p) as [|r0 r].
    + by rewrite Hj.
    + by rewrite Hj, app_assoc.
Qed.

Lemma ListConf_unfold fs d_path :
  ListConf d_path fs
  = (path_str <$> (child (Path d_path) <$>
       List.filter (fnmatch (str "*.conf"))
         (default [] (fs (path_str (Path d_path))))),
     [Scandir (path_str (Path d_path))]).
Proof. reflexivity. Qed.




(** C9: [extractServerName] returns the empty list for every argument,
    whatever the file system holds, and makes no call on the file system. *)
Theorem extractServerName_empty (fs : filesystem) (conf_path : pystr) :
  extractServerName conf_path fs = ([], []).
Proof. reflexivity. Qed.

End UtilityProofs.

(** ** Properties of main.py *)

Module GateProofs.
Import Main Gate.

(** The environment and forms of the running example. *)
Definition env_ab : gmap string pystr :=
  {[ "MAIL" := str "a@b.com"; "PASSWD" := str "secret123" ]}.

Definition form_of (mail passwd : string) : gmap string pystr :=
  {[ "usr-email" := str mail; "usr-passwd" := str passwd ]}.

Definition logged_in : gmap string pyval :=
  {[ "user-mail" := PStr (str "a@b.com") ]}.

(** A table that leaves the code points above ASCII alone. *)
Definition no_table : N → list N := λ c, [c].

(** *** Comparisons and lookups *)

Lemma py_eq_true a b : py_eq a b = true ↔ a = b.
Proof. unfold py_eq. apply bool_decide_eq_true. Qed.

Lemma py_eq_false a b : py_eq a b = false ↔ a ≠ b.
Proof. unfold py_eq. apply bool_decide_eq_false. Qed.

Lemma py_ne_true a b : py_ne a b = true ↔ a ≠ b.
Proof. unfold py_ne. rewrite negb_true_iff. apply py_eq_false. Qed.

Lemma py_ne_false a b : py_ne a b = false ↔ a = b.
Proof. unfold py_ne. rewrite negb_false_iff. apply py_eq_true. Qed.

Lemma get_str_Some (d : gmap string pystr) k v :
  d !! k = Some v → get_str d k = PStr v.
Proof. unfold get_str. by intros ->. Qed.

Lemma get_str_None (d : gmap string pystr) k :
  d !! k = None → get_str d k = PNone.
Proof. unfold get_str. by intros ->. Qed.

Lemma get_str_is_none (d : gmap string pystr) k :
  is_none (get_str d k) = true ↔ d !! k = None.
Proof. unfold get_str. destruct (d !! k); simpl; split; congruence. Qed.

Lemma dict_get_None_ne (session : gmap string pyval) k v :
  dict_get session k PNone ≠ PStr v ↔ session !! k ≠ Some (PStr v).
Proof.
  unfold dict_get. destruct (session !! k) as [w|]; simpl; split; congruence.
Qed.

(** *** The three exits of the form branch of [login] *)

Lemma login_bad_mail environ form session :
  dict_get session "user-mail" PNone ≠ getenv environ "MAIL" →
  get_str form "usr-email" ≠ getenv environ "MAIL" →
  login environ POST form session = (InvalidMail, session).
Proof.
  intros Hs Hm. unfold login.
  apply py_eq_false in Hs as ->. apply py_ne_true in Hm as ->. done.
Qed.

Lemma login_bad_password environ form session :
  dict_get session "user-mail" PNone ≠ getenv environ "MAIL" →
  get_str form "usr-email" = getenv environ "MAIL" →
  get_str form "usr-passwd" ≠ getenv environ "PASSWD" →
  login environ POST form session = (InvalidPassword, session).
Proof.
  intros Hs Hm Hp. unfold login.
  apply py_eq_false in Hs as ->. apply py_ne_false in Hm as ->.
  apply py_ne_true in Hp as ->. done.
Qed.

Lemma login_accepts environ form session :
  dict_get session "user-mail" PNone ≠ getenv environ "MAIL" →
  get_str form "usr-email" = getenv environ "MAIL" →
  get_str form "usr-passwd" = getenv environ "PASSWD" →
  login environ POST form session
  = (ToDashboard, <["user-mail" := get_str form "usr-email"]> session).
Proof.
  intros Hs Hm Hp. unfold login.
  apply py_eq_false in Hs as ->. apply py_ne_false in Hm as ->.
  apply py_ne_false in Hp as ->. done.
Qed.

(** The two exits of [logout]. *)
Lemma logout_absent session :
  dict_get session "user-mail" PNone = PNone →
  logout session = (Redirect "/", session).
Proof. intros Hs. unfold logout. apply py_eq_true in Hs as ->. done. Qed.

Lemma logout_present session :
  dict_get session "user-mail" PNone ≠ PNone →
  logout session = (Redirect "/", delete "user-mail" session).
Proof. intros Hs. unfold logout. apply py_eq_false in Hs as ->. done. Qed.

Lemma login_already environ m form session :
  dict_get session "user-mail" PNone = getenv environ "MAIL" →
  login environ m form session = (ToDashboard, session).
Proof. intros Hs. unfold login. apply py_eq_true in Hs as ->. done. Qed.

(** *** What a request can do to the session *)

Section Requests.
Variable upper_table : N → list N.

Lemma dashboard_session environ session :
  (dashboard upper_table environ session).2 = session.
Proof. unfold dashboard. repeat case_match; done. Qed.

Lemma logout_session session :
  (logout session).2 = session ∨ (logout session).2 = delete "user-mail" session.
Proof. unfold logout, dict_pop. case_match; auto. Qed.

(** [login] writes the session on one path only: the form branch, after
    both comparisons have passed. *)
Lemma login_session environ m form session :
  (login environ m form session).2 = session
  ∨ (m = POST
     ∧ get_str form "usr-email" = getenv environ "MAIL"
     ∧ get_str form "usr-passwd" = getenv environ "PASSWD"
     ∧ login environ m form session
       = (ToDashboard, <["user-mail" := get_str form "usr-email"]> session)).
Proof.
  unfold login.
  destruct (py_eq (dict_get session "user-mail" PNone) _); [by left|].
  destruct m; [by left|].
  destruct (py_ne (get_str form "usr-email") _) eqn:Hm; [by left|].
  destruct (py_ne (get_str form "usr-passwd") _) eqn:Hp; [by left|].
  right. apply py_ne_false in Hm, Hp. done.
Qed.

Lemma dispatch_session environ req session :
  (dispatch upper_table environ req session).2 = session
  ∨ (dispatch upper_table environ req session).2 = delete "user-mail" session
  ∨ (submits_credentials environ req
     ∧ dispatch upper_table environ req session
       = (ToDashboard,
          <["user-mail" := get_str (req_form req) "usr-email"]> session)).
Proof.
  unfold dispatch.
  destruct (decide (req_path req = "/")); [left; by case_match|].
  destruct (decide (req_path req = "/login")) as [Hl|].
  { destruct (login_session environ (req_method req) (req_form req) session)
      as [H | (Hpost & Hm & Hp & H)]; [by left|].
    right; right. split; [done|]. exact H. }
  destruct (decide (req_path req = "/logout")).
  { destruct (req_method req); [|by left].
    destruct (logout_session session); auto. }
  destruct (decide (req_path req = "/dashboard")); [|by left].
  left. apply dashboard_session.
Qed.

Lemma boot_running environ session :
  boot environ = Running session →
  session = ∅ ∧ is_Some (environ !! "MAIL") ∧ is_Some (environ !! "PASSWD").
Proof.
  unfold boot, startup.
  destruct (is_none (getenv environ "MAIL") || is_none (getenv environ "PASSWD"))
    eqn:Hchk; [done|].
  intros [= <-]. apply orb_false_elim in Hchk as [HM HP].
  unfold getenv, get_str in HM, HP.
  destruct (environ !! "MAIL"), (environ !! "PASSWD"); done.
Qed.

(** The process serves requests only when the startup check has passed. *)
Lemma reachable_running environ sv :
  reachable upper_table environ sv →
  ∀ session, sv = Running session → boot environ = Running ∅.
Proof.
  induction 1 as [|sv req resp sv' Hr IH Hstep]; intros session Hsv.
  - apply boot_running in Hsv as Hb. destruct Hb as [-> _]. done.
  - destruct Hstep. eauto.
Qed.

(** Invariant of the running process: a stored [user-mail] is the expected
    mail. *)
Lemma reachable_mail environ sv :
  reachable upper_table environ sv →
  ∀ session v, sv = Running session →
    session !! "user-mail" = Some v → v = getenv environ "MAIL".
Proof.
  induction 1 as [|sv req resp sv' Hr IH Hstep]; intros s' v Hsv Hv.
  - apply boot_running in Hsv as [-> _]. by rewrite lookup_empty in Hv.
  - destruct Hstep as [session req]. injection Hsv as <-.
    destruct (dispatch_session environ req session)
      as [Heq | [Heq | [(_ & _ & Hm & _) Heq]]]; rewrite Heq in Hv.
    + eauto.
    + by rewrite lookup_delete_eq in Hv.
    + simpl in Hv. rewrite lookup_insert_eq in Hv. congruence.
Qed.


(** While no login has succeeded the session stays empty. *)
Lemma anon_session_empty environ sv :
  reachable_anon upper_table environ sv →
  ∀ session, sv = Running session →
    session = ∅ ∧ is_Some (environ !! "MAIL").
Proof.
  induction 1 as [|sv req resp sv' Hr IH Hstep Hno]; intros s' Hsv.
  - apply boot_running in Hsv. tauto.
  - destruct Hstep as [session req]. injection Hsv as <-.
    destruct (IH session eq_refl) as [-> HM]. split; [|done].
    destruct (dispatch_session environ req ∅)
      as [Heq | [Heq | [(Hpath & Hpost & _) Heq]]].
    + done.
    + rewrite Heq. apply delete_empty.
    + destruct Hno. rewrite Heq. done.
Qed.
End Requests.



(** C10: with both credentials set and a session that is not logged in, a
    submitted form without the [usr-email] field renders the "Invalid User
    Email" page, a form with the expected mail and without the [usr-passwd]
    field renders the "Invalid User Password" page, the session is left as
    it is in both cases, and no submitted form makes [login] raise. *)
Theorem login_missing_fields (environ form : gmap string pystr)
    (session : gmap string pyval) (expected_mail expected_password : pystr) :
  environ !! "MAIL" = Some expected_mail →
  environ !! "PASSWD" = Some expected_password →
  session !! "user-mail" ≠ Some (PStr expected_mail) →
  (form !! "usr-email" = None →
     login environ POST form session = (InvalidMail, session))
  ∧ (form !! "usr-email" = Some expected_mail → form !! "usr-passwd" = None →
     login environ POST form session = (InvalidPassword, session))
  ∧ (login environ POST form session).1 ≠ TypeError.
Proof.
  intros HM HP Hs.
  apply get_str_Some in HM, HP. apply dict_get_None_ne in Hs.
  repeat split.
  - intros Hm. apply get_str_None in Hm.
    apply login_bad_mail; unfold getenv; rewrite ?HM, ?Hm; congruence.
  - intros Hm Hp. apply get_str_Some in Hm. apply get_str_None in Hp.
    apply login_bad_password; unfold getenv; rewrite ?HM, ?HP, ?Hm, ?Hp; congruence.
  - unfold login. repeat case_match; simpl; discriminate.
Qed.

Lemma login_missing_fields_witness :
  login env_ab POST {[ "usr-passwd" := str "secret123" ]} ∅ = (InvalidMail, ∅)
  ∧ login env_ab POST {[ "usr-email" := str "a@b.com" ]} ∅ = (InvalidPassword, ∅).
Proof.
  split.
  - apply (login_missing_fields env_ab {[ "usr-passwd" := str "secret123" ]} ∅
             (str "a@b.com") (str "secret123")); try reflexivity.
    vm_compute; discriminate.
  - apply (login_missing_fields env_ab {[ "usr-email" := str "a@b.com" ]} ∅
             (str "a@b.com") (str "secret123")); try reflexivity.
    vm_compute; discriminate.
Defined.

Section Served.
Variable upper_table : N → list N.

(** C2: a request to [/dashboard], GET or POST, on a session whose
    [user-mail] differs from the expected mail is answered by the redirect
    to [/login], the dashboard is not rendered and the session is left as it
    is; every session reached while no login has succeeded is such a
    session. *)
Theorem dashboard_requires_login (environ : gmap string pystr)
    (session : gmap string pyval) (req : request) :
  req_path req = "/dashboard" →
  (dict_get session "user-mail" PNone ≠ getenv environ "MAIL" →
     dispatch upper_table environ req session = (Redirect "/login", session))
  ∧ (reachable_anon upper_table environ (Running session) →
     dict_get session "user-mail" PNone ≠ getenv environ "MAIL"
     ∧ dispatch upper_table environ req session = (Redirect "/login", session)).
Proof.
  intros Hpath.
  assert (dict_get session "user-mail" PNone ≠ getenv environ "MAIL" →
          dispatch upper_table environ req session = (Redirect "/login", session))
    as Hredirect.
  { intros Hne. unfold dispatch. rewrite Hpath. simpl.
    unfold dashboard. apply py_ne_true in Hne as ->. done. }
  split; [done|]. intros Hanon.
  destruct (anon_session_empty _ _ _ Hanon session eq_refl) as [-> [m HM]].
  assert (dict_get (∅ : gmap string pyval) "user-mail" PNone
          ≠ getenv environ "MAIL") as Hne.
  { unfold getenv, get_str, dict_get. rewrite HM, lookup_empty. done. }
  auto.
Qed.

(** C3: in every state the running process reaches, a [user-mail] that is
    present is the expected mail, a string; a request leaves under
    [user-mail] either what was there or the mail of a submitted form whose
    mail and password both equal the expected ones; and a session with the
    key present is never reached without a successful login. *)
Theorem session_mail_verified (environ : gmap string pystr)
    (session : gmap string pyval) :
  reachable upper_table environ (Running session) →
  (∀ v, session !! "user-mail" = Some v →
        ∃ expected_mail, environ !! "MAIL" = Some expected_mail
                         ∧ v = PStr expected_mail)
  ∧ (∀ req v,
        (dispatch upper_table environ req session).2 !! "user-mail" = Some v →
        session !! "user-mail" = Some v
        ∨ (submits_credentials environ req
           ∧ v = get_str (req_form req) "usr-email"
           ∧ v = getenv environ "MAIL"))
  ∧ (is_Some (session !! "user-mail") →
     ¬ reachable_anon upper_table environ (Running session)).
Proof.
  intros Hreach. repeat split.
  - intros v Hv.
    pose proof (reachable_mail _ _ _ Hreach session v eq_refl Hv) as ->.
    pose proof (reachable_running _ _ _ Hreach session eq_refl) as Hb.
    apply boot_running in Hb as (_ & [m HM] & _).
    exists m. unfold getenv, get_str. by rewrite HM.
  - intros req v Hv.
    destruct (dispatch_session upper_table environ req session)
      as [Heq | [Heq | [Hsub Heq]]]; rewrite Heq in Hv.
    + by left.
    + by rewrite lookup_delete_eq in Hv.
    + right. simpl in Hv. rewrite lookup_insert_eq in Hv.
      injection Hv as <-. destruct Hsub as (? & ? & ? & ?). done.
  - intros [v Hv] Hanon.
    destruct (anon_session_empty _ _ _ Hanon session eq_refl) as [-> _].
    by rewrite lookup_empty in Hv.
Qed.

(** C6: in a process that has started, [logout] answers with the redirect
    to the home page and raises nothing; on a session that stores only
    strings it leaves the session without the [user-mail] key, so the key is
    removed when present, and nothing changes when it is absent; a second
    [logout] gives what the first gave, and after [logout] the session is
    not authenticated, whatever the session was. *)
Theorem logout_clears (environ : gmap string pystr) (session : gmap string pyval) :
  is_Some (environ !! "MAIL") →
  (logout session).1 = Redirect "/"
  ∧ (mail_is_str session → (logout session).2 = delete "user-mail" session)
  ∧ (session !! "user-mail" = None → (logout session).2 = session)
  ∧ logout (logout session).2 = logout session
  ∧ is_authenticated environ (logout session).2 = false.
Proof.
  intros [m HM].
  assert (∀ s : gmap string pyval,
            dict_get s "user-mail" PNone = PNone →
            is_authenticated environ s = false) as Hanon.
  { intros s Hs. unfold is_authenticated, getenv, get_str.
    rewrite Hs, HM. by apply py_eq_false. }
  assert (dict_get (delete "user-mail" session) "user-mail" PNone = PNone) as Hdel.
  { unfold dict_get. by rewrite lookup_delete_eq. }
  destruct (decide (dict_get session "user-mail" PNone = PNone)) as [Hs | Hs].
  - rewrite (logout_absent _ Hs). cbn [fst snd].
    rewrite (logout_absent _ Hs). repeat split; auto.
    intros Hstr. symmetry. apply delete_id. unfold mail_is_str, dict_get in *.
    destruct (session !! "user-mail") as [[|v]|]; done.
  - rewrite (logout_present _ Hs). cbn [fst snd].
    rewrite (logout_absent _ Hdel). repeat split; auto.
    intros Habs. unfold dict_get in Hs. by rewrite Habs in Hs.
Qed.


(** C4, amended: when [MAIL] or [PASSWD] is missing from the environment
    the startup check writes one critical entry, "Env variable not
    found!!!", to the log and ends the process through [exit()], whose
    status is 0; the process never reaches a state in which a request is
    handled. *)
Theorem startup_missing_env (environ : gmap string pystr) :
  environ !! "MAIL" = None ∨ environ !! "PASSWD" = None →
  startup environ
  = Exited [{| levelno := CRITICAL; message := str "Env variable not found!!!" |}] 0
  ∧ boot environ = Stopped 0
  ∧ (∀ sv, reachable upper_table environ sv →
       sv = Stopped 0
       ∧ ∀ req resp sv', ¬ step upper_table environ sv req resp sv').
Proof.
  intros Hmiss.
  assert (startup environ
          = Exited [{| levelno := CRITICAL;
                       message := str "Env variable not found!!!" |}] 0) as Hst.
  { unfold startup.
    assert (is_none (getenv environ "MAIL") || is_none (getenv environ "PASSWD")
            = true) as ->; [|done].
    apply orb_true_iff. unfold getenv. rewrite !get_str_is_none. done. }
  assert (boot environ = Stopped 0) as Hb by (unfold boot; by rewrite Hst).
  repeat split; try done.
  - induction H as [|sv req resp sv' Hr IH Hstep]; [done|].
    subst sv. inversion Hstep.
  - intros req resp sv' Hstep.
    assert (sv = Stopped 0) as ->.
    { clear Hstep. induction H as [|sv req0 resp0 sv0 Hr IH Hstep]; [done|].
      subst sv. inversion Hstep. }
    inversion Hstep.
Qed.

End Served.

(** C5, amended: the startup check asks that [MAIL] and [PASSWD] be present,
    not that they be non-empty: the process starts exactly when both are
    set and stops exactly when one is missing, and a credential set to the
    empty string is accepted. *)
Theorem startup_requires_presence (environ : gmap string pystr) :
  (startup environ = Serving []
   ↔ is_Some (environ !! "MAIL") ∧ is_Some (environ !! "PASSWD"))
  ∧ ((∃ log status, startup environ = Exited log status)
     ↔ environ !! "MAIL" = None ∨ environ !! "PASSWD" = None)
  ∧ (environ !! "MAIL" = Some [] → is_Some (environ !! "PASSWD") →
     startup environ = Serving []).
Proof.
  unfold startup, getenv, get_str, is_Some.
  destruct (environ !! "MAIL") as [m|], (environ !! "PASSWD") as [pw|]; simpl.
  - split; [split; eauto|]. split; [|done].
    split; [intros (? & ? & ?) | intros [|]]; discriminate.
  - split; [split; [|intros [_ [? ?]]]; discriminate|].
    split; [|intros _ [? ?]; discriminate]. split; eauto.
  - split; [split; [|intros [[? ?] _]]; discriminate|].
    split; [|discriminate]. split; eauto.
  - split; [split; [|intros [[? ?] _]]; discriminate|].
    split; [|discriminate]. split; eauto.
Qed.

(** *** The properties at the running example *)

Definition get_dashboard : request :=
  {| req_method := GET; req_path := "/dashboard"; req_form := ∅ |}.

Definition post_login (mail passwd : string) : request :=
  {| req_method := POST; req_path := "/login"; req_form := form_of mail passwd |}.

Lemma dashboard_requires_login_witness :
  dispatch no_table env_ab get_dashboard {[ "user-mail" := PStr (str "x@b.com") ]}
    = (Redirect "/login", {[ "user-mail" := PStr (str "x@b.com") ]})
  ∧ dispatch no_table env_ab get_dashboard ∅ = (Redirect "/login", ∅).
Proof.
  split.
  - destruct (dashboard_requires_login no_table env_ab
                {[ "user-mail" := PStr (str "x@b.com") ]} get_dashboard eq_refl)
      as [Hne _].
    apply Hne. vm_compute. discriminate.
  - destruct (dashboard_requires_login no_table env_ab ∅ get_dashboard eq_refl)
      as [_ Hanon].
    apply Hanon. exact (anon_boot no_table env_ab).
Defined.

Lemma logged_in_reachable : reachable no_table env_ab (Running logged_in).
Proof.
  exact (reach_step no_table env_ab (Running ∅) (post_login "a@b.com" "secret123")
           _ _ (reach_boot no_table env_ab)
           (step_request no_table env_ab ∅ (post_login "a@b.com" "secret123"))).
Qed.

Lemma session_mail_verified_witness :
  reachable no_table env_ab (Running logged_in)
  ∧ ∀ v, logged_in !! "user-mail" = Some v →
         ∃ expected_mail, env_ab !! "MAIL" = Some expected_mail
                          ∧ v = PStr expected_mail.
Proof.
  split.
  - exact logged_in_reachable.
  - apply (session_mail_verified no_table env_ab logged_in). exact logged_in_reachable.
Defined.

Lemma logout_clears_witness :
  (logout logged_in).2 = delete "user-mail" logged_in
  ∧ is_authenticated env_ab (logout logged_in).2 = false.
Proof.
  assert (is_Some (env_ab !! "MAIL")) as HM by (exists (str "a@b.com"); reflexivity).
  assert (mail_is_str logged_in) as Hs by (unfold mail_is_str; vm_compute; discriminate).
  destruct (logout_clears env_ab logged_in HM) as (_ & Hdel & _ & _ & Hauth).
  split; [exact (Hdel Hs) | exact Hauth].
Defined.


Lemma startup_missing_env_witness :
  startup {[ "PASSWD" := str "secret123" ]}
  = Exited [{| levelno := CRITICAL; message := str "Env variable not found!!!" |}] 0.
Proof.
  apply (startup_missing_env no_table {[ "PASSWD" := str "secret123" ]}).
  left. reflexivity.
Defined.

(** C4, as stated, fails: with an empty environment [MAIL] is missing, the
    critical entry is written and the process exits, but with status 0. *)
Lemma startup_exit_status_zero :
  (∅ : gmap string pystr) !! "MAIL" = None
  ∧ startup ∅
    = Exited [{| levelno := CRITICAL; message := str "Env variable not found!!!" |}] 0
  ∧ ¬ aborts_with_failure ∅.
Proof.
  split; [reflexivity|]. split; [reflexivity|].
  intros (log & status & Hst & _ & Hnz).
  change (startup ∅) with
    (Exited [{| levelno := CRITICAL;
                message := str "Env variable not found!!!" |}] 0) in Hst.
  injection Hst as _ <-. done.
Qed.

(** C5, as stated, fails: with [MAIL] set to the empty string and [PASSWD]
    set, the startup check passes and the process serves. *)
Lemma startup_accepts_empty_mail :
  ({[ "MAIL" := []; "PASSWD" := str "secret123" ]} : gmap string pystr) !! "MAIL"
    = Some []
  ∧ startup {[ "MAIL" := []; "PASSWD" := str "secret123" ]} = Serving []
  ∧ ¬ refuses_empty {[ "MAIL" := []; "PASSWD" := str "secret123" ]}.
Proof.
  split; [reflexivity|]. split; [reflexivity|].
  intros Href. destruct Href as (log & status & Hst); [by left|].
  change (startup {[ "MAIL" := []; "PASSWD" := str "secret123" ]})
    with (Serving []) in Hst.
  discriminate.
Qed.

End GateProofs.

(** ** Further properties of main.py *)

Module GateExtra.
Import Main Gate Trace GateProofs.

Lemma is_authenticated_true environ session :
  is_authenticated environ session = true
  ↔ dict_get session "user-mail" PNone = getenv environ "MAIL".
Proof. unfold is_authenticated. apply py_eq_true. Qed.




(** X2: once a submitted form has been answered by the redirect to the
    dashboard, the session is authenticated, and every later request to
    [login], GET or POST, whatever it submits, is answered by the same
    redirect and leaves the session as it is. *)
Theorem login_is_stable (environ form : gmap string pystr)
    (session : gmap string pyval) :
  (login environ POST form session).1 = Redirect "/dashboard" →
  is_authenticated environ (login environ POST form session).2 = true
  ∧ ∀ m form',
      login environ m form' (login environ POST form session).2
      = (Redirect "/dashboard", (login environ POST form session).2).
Proof.
  intros Hok.
  assert (dict_get (login environ POST form session).2 "user-mail" PNone
          = getenv environ "MAIL") as Hauth.
  { destruct (decide (dict_get session "user-mail" PNone = getenv environ "MAIL"))
      as [Ha|Ha]; [by rewrite (login_already _ _ _ _ Ha)|].
    destruct (decide (get_str form "usr-email" = getenv environ "MAIL")) as [Hm|Hm];
      [|by rewrite (login_bad_mail _ _ _ Ha Hm) in Hok].
    destruct (decide (get_str form "usr-passwd" = getenv environ "PASSWD"))
      as [Hp|Hp]; [|by rewrite (login_bad_password _ _ _ Ha Hm Hp) in Hok].
    rewrite (login_accepts _ _ _ Ha Hm Hp). cbn [snd].
    unfold dict_get. by rewrite lookup_insert_eq. }
  split; [by apply is_authenticated_true|].
  intros m form'. by apply login_already.
Qed.

Lemma login_is_stable_witness :
  login env_ab GET ∅ (login env_ab POST (form_of "a@b.com" "secret123") ∅).2
  = (Redirect "/dashboard", (login env_ab POST (form_of "a@b.com" "secret123") ∅).2).
Proof.
  apply (login_is_stable env_ab (form_of "a@b.com" "secret123") ∅). reflexivity.
Defined.



Section Served.
Variable upper_table : N → list N.

(** The two exits of [dashboard] on a session that stores a string. *)
Lemma dashboard_renders environ session mail :
  environ !! "MAIL" = Some mail →
  session !! "user-mail" = Some (PStr mail) →
  dashboard upper_table environ session
  = (Render "dashboard.html" (Avatar (upper upper_table (take 2 mail))), session).
Proof.
  intros HM Hs. unfold dashboard, py_ne, py_eq, dict_get, getenv, get_str.
  rewrite Hs, HM. simpl. rewrite bool_decide_eq_true_2 by done. simpl.
  by rewrite drop_0.
Qed.

Lemma dashboard_redirects environ session :
  dict_get session "user-mail" PNone ≠ getenv environ "MAIL" →
  dashboard upper_table environ session = (Redirect "/login", session).
Proof. intros Hne. unfold dashboard. apply py_ne_true in Hne as ->. done. Qed.

Lemma dispatch_dashboard environ req session :
  req_path req = "/dashboard" →
  dispatch upper_table environ req session = dashboard upper_table environ session.
Proof. intros Hpath. unfold dispatch. rewrite Hpath. done. Qed.


(** X3: the handlers read and write one session key: a request leaves every
    other key as it was, and the sessions the running process reaches hold
    no key but [user-mail]. *)
Theorem session_single_key (environ : gmap string pystr)
    (session : gmap string pyval) :
  reachable upper_table environ (Running session) →
  (∀ k, is_Some (session !! k) → k = "user-mail")
  ∧ (∀ req k, k ≠ "user-mail" →
       (dispatch upper_table environ req session).2 !! k = session !! k).
Proof.
  assert (∀ s req k, k ≠ "user-mail" →
            (dispatch upper_table environ req s).2 !! k = s !! k) as Hframe.
  { intros s req k Hk.
    destruct (dispatch_session upper_table environ req s)
      as [-> | [-> | [_ ->]]]; [done| |].
    - by rewrite lookup_delete_ne.
    - cbn [snd]. by rewrite lookup_insert_ne. }
  intros Hreach. split; [|by apply Hframe].
  remember (Running session) as sv eqn:Hsv. revert session Hsv.
  induction Hreach as [|sv req resp sv' Hr IH Hstep]; intros s' Hsv k Hk.
  - apply boot_running in Hsv as [-> _]. rewrite lookup_empty in Hk.
    by destruct Hk.
  - destruct Hstep as [session req]. injection Hsv as <-.
    destruct (decide (k = "user-mail")) as [|Hne]; [done|].
    rewrite (Hframe _ _ _ Hne) in Hk. eauto.
Qed.



(** X6: in the states the running process reaches, a request to
    [/dashboard] on a session that holds [user-mail] renders the dashboard
    with the upper-cased first two characters of [MAIL], and on a session
    without the key redirects to [/login]; the session is unchanged in both
    cases and the default initials of the handler are never shown. *)
Theorem dashboard_when_serving (environ : gmap string pystr)
    (session : gmap string pyval) (req : request) :
  reachable upper_table environ (Running session) →
  req_path req = "/dashboard" →
  (is_Some (session !! "user-mail")
   ∧ ∃ mail, environ !! "MAIL" = Some mail
       ∧ dispatch upper_table environ req session
         = (Render "dashboard.html" (Avatar (upper upper_table (take 2 mail))),
            session))
  ∨ (session !! "user-mail" = None
     ∧ dispatch upper_table environ req session = (Redirect "/login", session)).
Proof.
  intros Hreach Hpath. rewrite (dispatch_dashboard _ _ _ Hpath).
  pose proof (reachable_running _ _ _ Hreach session eq_refl) as Hb.
  apply boot_running in Hb as (_ & [mail HM] & _).
  destruct (session !! "user-mail") as [v|] eqn:Hs.
  - left. split; [done|]. exists mail. split; [done|].
    pose proof (reachable_mail _ _ _ Hreach session v eq_refl Hs) as ->.
    apply dashboard_renders; [done|].
    unfold getenv, get_str in Hs. by rewrite HM in Hs.
  - right. split; [done|]. apply dashboard_redirects.
    unfold dict_get, getenv, get_str. by rewrite Hs, HM.
Qed.


End Served.


(** *** Upper-casing ASCII text *)

Lemma ascii_upper_spec c :
  c < 128 →
  ascii_upper c < 128
  ∧ ¬ (97 ≤ ascii_upper c ≤ 122)
  ∧ ascii_upper (ascii_upper c) = ascii_upper c.
Proof.
  intros Hc. unfold ascii_upper.
  destruct (N.leb_spec 97 c), (N.leb_spec c 122); simpl;
    repeat match goal with
           | |- context [N.leb ?a ?b] => destruct (N.leb_spec a b); simpl
           end; lia.
Qed.

Section AsciiUpper.
Variable upper_table : N → list N.

Lemma upper_ascii (s : pystr) :
  Forall (λ c, c < 128) s → upper upper_table s = ascii_upper <$> s.
Proof.
  induction 1 as [|c s Hc _ IH]; [done|].
  unfold upper in *. rewrite bind_cons, IH, fmap_cons. unfold cp_upper.
  apply N.ltb_lt in Hc as ->. done.
Qed.

(** X9: for a mail of ASCII characters the rendered [avtr] is the first two
    characters with the letters [a]-[z] replaced by [A]-[Z]: it has two
    characters, or as many as the mail has when that is fewer, it holds no
    lower-case ASCII letter, and upper-casing it again changes nothing. *)
Theorem avatar_ascii (environ : gmap string pystr) (session : gmap string pyval)
    (mail : pystr) :
  environ !! "MAIL" = Some mail →
  session !! "user-mail" = Some (PStr mail) →
  Forall (λ c, c < 128) mail →
  ∃ avtr,
    dashboard upper_table environ session
    = (Render "dashboard.html" (Avatar avtr), session)
    ∧ avtr = ascii_upper <$> take 2 mail
    ∧ length avtr = min 2 (length mail)
    ∧ Forall (λ c, c < 128 ∧ ¬ (97 ≤ c ≤ 122)) avtr
    ∧ upper upper_table avtr = avtr.
Proof.
  intros HM Hs Hascii. exists (ascii_upper <$> take 2 mail).
  assert (Forall (λ c, c < 128) (take 2 mail)) as Htake by by apply Forall_take.
  split_and!.
  - rewrite (dashboard_renders upper_table _ _ _ HM Hs). by rewrite upper_ascii.
  - done.
  - by rewrite length_fmap, length_take.
  - apply Forall_fmap. eapply Forall_impl; [exact Htake|].
    intros c Hc. simpl. pose proof (ascii_upper_spec c Hc). tauto.
  - rewrite upper_ascii.
    + rewrite <- list_fmap_compose. apply list_fmap_ext.
      intros i c Hc. simpl. apply ascii_upper_spec.
      eapply Forall_lookup_1 in Htake; eauto.
    + apply Forall_fmap. eapply Forall_impl; [exact Htake|].
      intros c Hc. simpl. by apply ascii_upper_spec.
Qed.
End AsciiUpper.

(** *** The further properties at the running example *)

Definition get_logout : request :=
  {| req_method := GET; req_path := "/logout"; req_form := ∅ |}.

Lemma session_single_key_witness :
  ¬ is_Some (logged_in !! "theme")
  ∧ (dispatch no_table env_ab get_logout logged_in).2 !! "theme"
    = logged_in !! "theme".
Proof.
  destruct (session_single_key no_table env_ab logged_in logged_in_reachable)
    as [Hkeys Hframe].
  split.
  - intros Hk. apply Hkeys in Hk. discriminate Hk.
  - apply Hframe. discriminate.
Defined.



Lemma dashboard_when_serving_witness :
  (is_Some (logged_in !! "user-mail")
   ∧ ∃ mail, env_ab !! "MAIL" = Some mail
       ∧ dispatch no_table env_ab get_dashboard logged_in
         = (Render "dashboard.html" (Avatar (upper no_table (take 2 mail))),
            logged_in))
  ∨ (logged_in !! "user-mail" = None
     ∧ dispatch no_table env_ab get_dashboard logged_in
       = (Redirect "/login", logged_in)).
Proof.
  apply (dashboard_when_serving no_table env_ab logged_in get_dashboard).
  - exact logged_in_reachable.
  - reflexivity.
Defined.



Lemma avatar_ascii_witness :
  ∃ avtr,
    dashboard no_table env_ab logged_in
    = (Render "dashboard.html" (Avatar avtr), logged_in)
    ∧ avtr = ascii_upper <$> take 2 (str "a@b.com")
    ∧ length avtr = min 2 (length (str "a@b.com"))
    ∧ Forall (λ c, c < 128 ∧ ¬ (97 ≤ c ≤ 122)) avtr
    ∧ upper no_table avtr = avtr.
Proof.
  apply (avatar_ascii no_table env_ab logged_in (str "a@b.com")).
  - reflexivity.
  - reflexivity.
  - vm_compute. repeat constructor.
Defined.

End GateExtra.

(** ** Further properties of Utility.py *)

Module UtilityExtra.
Import Utility UtilityProofs.

(** The string of a child is a fixed prefix followed by the name. *)
Definition dir_prefix (p : PosixPath) : pystr :=
  match parts p with
  | [] => root p
  | _ :: _ => path_str p ++ [47]
  end.

Lemma path_str_child_prefix p name :
  path_str (child p name) = dir_prefix p ++ name.
Proof.
  rewrite path_str_child. unfold dir_prefix.
  destruct (parts p); [done|]. by rewrite <- app_assoc.
Qed.

Lemma ListConf_result fs d_path :
  (ListConf d_path fs).1
  = (λ name, dir_prefix (Path d_path) ++ name)
    <$> List.filter (fnmatch (str "*.conf"))
          (default [] (fs (path_str (Path d_path)))).
Proof.
  rewrite ListConf_unfold. cbn [fst]. rewrite <- list_fmap_compose.
  apply list_fmap_ext. intros i name _. apply path_str_child_prefix.
Qed.

Lemma NoDup_bool_filter {A} (f : A → bool) (l : list A) :
  NoDup l → NoDup (List.filter f l).
Proof. rewrite !NoDup_ListNoDup. apply List.NoDup_filter. Qed.

(** X10: every string [ListConf] returns ends in [.conf], and its part
    after the directory is the name of an entry of the directory. *)
Theorem ListConf_all_conf (fs : filesystem) (d_path x : pystr) :
  x ∈ (ListConf d_path fs).1 →
  str ".conf" `suffix_of` x
  ∧ ∃ name, name ∈ default [] (fs (path_str (Path d_path)))
            ∧ x = dir_prefix (Path d_path) ++ name.
Proof.
  rewrite ListConf_result. intros Hx.
  apply list_elem_of_fmap in Hx as (name & -> & Hn).
  apply list_elem_of_In, filter_In in Hn as [Hin Hm].
  apply fnmatch_conf in Hm. split.
  - by apply suffix_app_r.
  - exists name. by rewrite list_elem_of_In.
Qed.

Lemma ListConf_all_conf_witness :
  str ".conf" `suffix_of` str "/tmp/empty/x.conf".
Proof.
  apply (ListConf_all_conf fs_two_files (str "/tmp/empty") (str "/tmp/empty/x.conf")).
  vm_compute. left.
Defined.

(** X11: [ListConf] returns one string for each entry that ends in
    [.conf], in the order of the directory: never more strings than the
    directory has entries, and distinct entries give distinct strings. *)
Theorem ListConf_distinct (fs : filesystem) (d_path : pystr) :
  NoDup (default [] (fs (path_str (Path d_path)))) →
  NoDup (ListConf d_path fs).1
  ∧ (length (ListConf d_path fs).1
     ≤ length (default [] (fs (path_str (Path d_path)))))%nat.
Proof.
  intros Hnd. rewrite ListConf_result. split.
  - apply NoDup_fmap_2.
    + intros a b Hab. by apply app_inv_head in Hab.
    + by apply NoDup_bool_filter.
  - rewrite length_fmap. apply List.filter_length_le.
Qed.

Lemma ListConf_distinct_witness :
  NoDup (ListConf (str "/tmp/empty") fs_two_files).1.
Proof.
  apply (ListConf_distinct fs_two_files (str "/tmp/empty")).
  change (NoDup [str "x.conf"; str "y.txt"]).
  apply NoDup_cons. split.
  - vm_compute. intros Hin. apply list_elem_of_In in Hin.
    destruct Hin as [Heq|[]]. discriminate Heq.
  - apply NoDup_singleton.
Defined.

(** *** Normal form of paths *)

Lemma parse_root_other c s : c ≠ 47 → parse_root (c :: s) = [].
Proof.
  intros Hc. destruct c as [|q]; [done|].
  do 6 (destruct q as [q|q|]; try done).
Qed.

Lemma parse_root_slash_other c s : c ≠ 47 → parse_root (47 :: c :: s) = [47].
Proof.
  intros Hc. destruct c as [|q]; [done|].
  do 6 (destruct q as [q|q|]; try done).
Qed.

Lemma parse_root_slash2_other c s :
  c ≠ 47 → parse_root (47 :: 47 :: c :: s) = [47; 47].
Proof.
  intros Hc. destruct c as [|q]; [done|].
  do 6 (destruct q as [q|q|]; try done).
Qed.

Lemma split_slash_cons_slash s : split_slash (47 :: s) = [] :: split_slash s.
Proof. reflexivity. Qed.

Lemma split_slash_nonempty s : split_slash s ≠ [].
Proof.
  destruct s as [|c s]; [done|]. simpl.
  destruct (c =? 47); [done|]. by destruct (split_slash s).
Qed.

Lemma split_slash_cons_other c s :
  c ≠ 47 →
  ∃ hd tl, split_slash s = hd :: tl ∧ split_slash (c :: s) = (c :: hd) :: tl.
Proof.
  intros Hc. simpl. apply N.eqb_neq in Hc as ->.
  destruct (split_slash s) as [|hd tl] eqn:Hs.
  - by apply split_slash_nonempty in Hs.
  - eauto.
Qed.

(** A trailing slash adds one empty component. *)
Lemma split_slash_snoc_slash s :
  split_slash (s ++ [47]) = split_slash s ++ [[]].
Proof.
  induction s as [|c s IH]; [done|].
  destruct (decide (c = 47)) as [->|Hc].
  - change ((47 :: s) ++ [47]) with (47 :: (s ++ [47])).
    by rewrite !split_slash_cons_slash, IH.
  - change ((c :: s) ++ [47]) with (c :: (s ++ [47])).
    destruct (split_slash_cons_other c s Hc) as (hd & tl & Hs & ->).
    destruct (split_slash_cons_other c (s ++ [47]) Hc) as (hd' & tl' & Hs' & ->).
    rewrite IH, Hs in Hs'. by injection Hs' as <- <-.
Qed.

Lemma parse_root_snoc_slash s :
  s ≠ [] → s ≠ [47] → s ≠ [47; 47] →
  parse_root (s ++ [47]) = parse_root s.
Proof.
  intros H0 H1 H2.
  destruct s as [|a s]; [done|]. rewrite <- app_comm_cons.
  destruct (decide (a = 47)) as [->|Ha]; [|by rewrite !parse_root_other].
  destruct s as [|b s]; [done|]. rewrite <- app_comm_cons.
  destruct (decide (b = 47)) as [->|Hb]; [|by rewrite !parse_root_slash_other].
  destruct s as [|c s]; [done|]. rewrite <- app_comm_cons.
  destruct (decide (c = 47)) as [->|Hc]; [done|].
  by rewrite !parse_root_slash2_other.
Qed.

(** X12: a trailing slash on the directory makes no difference to
    [ListConf], for every directory other than the empty path, [/] and
    [//]. *)
Theorem ListConf_trailing_slash (fs : filesystem) (d_path : pystr) :
  d_path ≠ [] → d_path ≠ [47] → d_path ≠ [47; 47] →
  Path (d_path ++ [47]) = Path d_path
  ∧ ListConf (d_path ++ [47]) fs = ListConf d_path fs.
Proof.
  intros H0 H1 H2.
  assert (Path (d_path ++ [47]) = Path d_path) as HP.
  { unfold Path. rewrite parse_root_snoc_slash by done.
    rewrite split_slash_snoc_slash, List.filter_app. simpl.
    by rewrite app_nil_r. }
  split; [done|]. by rewrite !ListConf_unfold, HP.
Qed.

Lemma ListConf_trailing_slash_witness :
  ListConf (str "/tmp/empty/") fs_two_files = ListConf (str "/tmp/empty") fs_two_files.
Proof.
  apply (ListConf_trailing_slash fs_two_files (str "/tmp/empty"));
    vm_compute; discriminate.
Defined.

(** *** Parsing the string of a path gives the path back *)

Abbreviation slash_free := (Forall (λ c : N, c ≠ 47)).

Lemma split_slash_slash_free s : Forall slash_free (split_slash s).
Proof.
  induction s as [|c s IH]; [by repeat constructor|].
  destruct (decide (c = 47)) as [->|Hc].
  - rewrite split_slash_cons_slash. by constructor.
  - destruct (split_slash_cons_other c s Hc) as (hd & tl & Hs & ->).
    rewrite Hs in IH. apply Forall_cons in IH as [Hhd Htl].
    constructor; [by constructor | done].
Qed.

Lemma split_slash_free x : slash_free x → split_slash x = [x].
Proof.
  induction 1 as [|c x Hc _ IH]; [done|].
  simpl. apply N.eqb_neq in Hc as ->. by rewrite IH.
Qed.

Lemma split_slash_free_app x t :
  slash_free x → split_slash (x ++ 47 :: t) = x :: split_slash t.
Proof.
  induction 1 as [|c x Hc _ IH]; [done|].
  rewrite <- app_comm_cons. simpl. apply N.eqb_neq in Hc as ->.
  by rewrite IH.
Qed.

Lemma split_join_slash ps :
  ps ≠ [] → Forall slash_free ps → split_slash (join_slash ps) = ps.
Proof.
  intros Hne Hfree. induction Hfree as [|x ps Hx Hps IH]; [done|].
  destruct ps as [|y ps]; [by apply split_slash_free|].
  change (join_slash (x :: y :: ps)) with (x ++ 47 :: join_slash (y :: ps)).
  rewrite split_slash_free_app by done. by rewrite IH.
Qed.

Lemma filter_keep_all (ps : list pystr) :
  Forall (λ x, keep_part x = true) ps → List.filter keep_part ps = ps.
Proof.
  induction 1 as [|x ps Hx _ IH]; [done|]. simpl. by rewrite Hx, IH.
Qed.

Lemma parts_kept s :
  Forall (λ x, keep_part x = true) (parts (Path s))
  ∧ Forall slash_free (parts (Path s)).
Proof.
  unfold Path. cbn [parts]. split.
  - apply Forall_forall. intros x Hx.
    by apply list_elem_of_In, filter_In in Hx as [_ Hx].
  - pose proof (split_slash_slash_free s) as Hall.
    rewrite Forall_forall in Hall |- *. intros x Hx. apply Hall.
    apply list_elem_of_In, filter_In in Hx as [Hx _]. by apply list_elem_of_In.
Qed.

Lemma parse_root_cases s :
  parse_root s = [] ∨ parse_root s = [47] ∨ parse_root s = [47; 47].
Proof.
  destruct s as [|a s]; [by left|].
  destruct (decide (a = 47)) as [->|Ha]; [|left; by apply parse_root_other].
  destruct s as [|b s]; [by right; left|].
  destruct (decide (b = 47)) as [->|Hb];
    [|right; left; by apply parse_root_slash_other].
  destruct s as [|c s]; [by right; right|].
  destruct (decide (c = 47)) as [->|Hc]; [by right; left|].
  right; right. by apply parse_root_slash2_other.
Qed.

Lemma Path_of_path_str r ps :
  r = [] ∨ r = [47] ∨ r = [47; 47] →
  Forall (λ x, keep_part x = true) ps →
  Forall slash_free ps →
  Path (path_str {| root := r; parts := ps |}) = {| root := r; parts := ps |}.
Proof.
  intros Hroot Hkeep Hfree. destruct ps as [|x ps].
  - destruct Hroot as [-> | [-> | ->]]; reflexivity.
  - assert (∃ c w, c ≠ 47 ∧ join_slash (x :: ps) = c :: w) as (c & w & Hc & Hj).
    { apply Forall_cons in Hkeep as [Hx _]. apply Forall_cons in Hfree as [Hfx _].
      destruct x as [|c x]; [done|]. apply Forall_cons in Hfx as [Hc _].
      exists c. destruct ps; simpl; eauto. }
    assert (split_slash (join_slash (x :: ps)) = x :: ps) as Hsplit
      by by apply split_join_slash.
    assert (List.filter keep_part (x :: ps) = x :: ps) as Hfilter
      by by apply filter_keep_all.
    assert (path_str {| root := r; parts := x :: ps |} = r ++ join_slash (x :: ps))
      as -> by by destruct r.
    unfold Path. remember (join_slash (x :: ps)) as j eqn:Hjdef.
    destruct Hroot as [-> | [-> | ->]]; f_equal; simpl app.
    + rewrite Hj. by apply parse_root_other.
    + by rewrite Hsplit.
    + rewrite Hj. by apply parse_root_slash_other.
    + by rewrite split_slash_cons_slash, Hsplit.
    + rewrite Hj. by apply parse_root_slash2_other.
    + by rewrite !split_slash_cons_slash, Hsplit.
Qed.

Lemma Path_path_str s : Path (path_str (Path s)) = Path s.
Proof.
  destruct (parts_kept s) as [Hkeep Hfree].
  apply (Path_of_path_str (parse_root s) (parts (Path s)));
    [apply parse_root_cases | done | done].
Qed.

(** X13: the string of a parsed path parses to the same path, so
    [ListConf] gives the same result, with the same call on the file system,
    for a directory and for the normal form of its path (doubled slashes,
    [.] components and a trailing slash removed). *)
Theorem ListConf_normal_form (fs : filesystem) (d_path : pystr) :
  Path (path_str (Path d_path)) = Path d_path
  ∧ ListConf (path_str (Path d_path)) fs = ListConf d_path fs.
Proof.
  split; [apply Path_path_str|].
  by rewrite !ListConf_unfold, Path_path_str.
Qed.

End UtilityExtra.

(** ** Properties of initBKPDir *)

Module DirsProofs.
Import Utility Dirs UtilityProofs.

(** A tree with the directory [/tmp] and the file [/tmp/notes] in it. *)
Definition tree_tmp : gmap pystr node :=
  {[ str "/" := Dir [str "tmp"];
     str "/tmp" := Dir [str "notes"];
     str "/tmp/notes" := File ]}.

Lemma is_dir_true (p : PosixPath) (t : gmap pystr node) :
  is_dir p t = true ↔ ∃ entries, t !! path_str p = Some (Dir entries).
Proof.
  unfold is_dir. destruct (t !! path_str p) as [[|es]|]; split;
    try done; try (intros [? ?]; done). eauto.
Qed.




(** X16: [initBKPDir] is idempotent: after a call that succeeded the path
    is a directory, a second call succeeds and changes nothing; and a call
    that succeeds on a path that already exists leaves the tree, the
    directory's entries included, as it was. *)
Theorem initBKPDir_idempotent (d_path : pystr) (t t' : gmap pystr node) :
  initBKPDir d_path t = inr t' →
  initBKPDir d_path t' = inr t'
  ∧ is_dir (Path d_path) t' = true
  ∧ (is_Some (t !! path_str (Path d_path)) → t' = t).
Proof.
  unfold initBKPDir, mkdir, os_mkdir.
  destruct (t !! path_str (parent (Path d_path))) as [[|siblings]|] eqn:Hpar;
    [| |done].
  - simpl. destruct (is_dir (Path d_path) t) eqn:Hdir; [|done].
    intros [= <-]. by rewrite Hpar, Hdir.
  - destruct (t !! path_str (Path d_path)) as [n|] eqn:Hnew.
    + simpl. destruct (is_dir (Path d_path) t) eqn:Hdir; [|done].
      intros [= <-]. by rewrite Hpar, Hnew, Hdir.
    + intros [= <-].
      assert (path_str (Path d_path) ≠ path_str (parent (Path d_path))) as Hne
        by congruence.
      assert (is_dir (Path d_path)
                (<[path_str (Path d_path) := Dir []]>
                   (<[path_str (parent (Path d_path))
                      := Dir (siblings ++ [name (Path d_path)])]> t)) = true)
        as Hdir.
      { apply is_dir_true. exists []. by rewrite lookup_insert_eq. }
      rewrite lookup_insert_ne, !lookup_insert_eq by done. simpl.
      rewrite Hdir. split_and!; [done|done|]. by intros [? ?].
Qed.

Lemma initBKPDir_idempotent_witness :
  initBKPDir (str "/tmp") tree_tmp = inr tree_tmp.
Proof.
  apply (initBKPDir_idempotent (str "/tmp") tree_tmp tree_tmp). reflexivity.
Defined.



Lemma Forall_removelast {A} (P : A → Prop) (l : list A) :
  Forall P l → Forall P (removelast l).
Proof.
  induction 1 as [|x l Hx Hl IH]; [done|].
  destruct l as [|y l]; [constructor|]. by constructor.
Qed.

Lemma Path_parent_str s :
  Path (path_str (parent (Path s))) = parent (Path s).
Proof.
  destruct (UtilityExtra.parts_kept s) as [Hkeep Hfree].
  apply (UtilityExtra.Path_of_path_str (parse_root s) (removelast (parts (Path s))));
    [apply UtilityExtra.parse_root_cases | by apply Forall_removelast ..].
Qed.

Lemma child_parent_name p :
  parts p ≠ [] → child (parent p) (name p) = p.
Proof.
  intros Hne. unfold child, parent, name. cbn [root parts].
  rewrite <- (app_removelast_last [] Hne). by destruct p.
Qed.

(** X18: [ListConf] does not tell directories from files: once
    [initBKPDir] has created a directory whose name ends in [.conf],
    [ListConf] of the directory above returns its path among the others. *)
Theorem ListConf_lists_directories (d_path : pystr) (t t' : gmap pystr node)
    (siblings : list pystr) :
  parts (Path d_path) ≠ [] →
  str ".conf" `suffix_of` name (Path d_path) →
  t !! path_str (parent (Path d_path)) = Some (Dir siblings) →
  t !! path_str (Path d_path) = None →
  initBKPDir d_path t = inr t' →
  is_dir (Path d_path) t' = true
  ∧ path_str (Path d_path)
    ∈ (ListConf (path_str (parent (Path d_path))) (listing t')).1.
Proof.
  intros Hparts Hconf Hpar Hnew.
  assert (path_str (Path d_path) ≠ path_str (parent (Path d_path))) as Hne
    by congruence.
  unfold initBKPDir, mkdir, os_mkdir. rewrite Hpar, Hnew. intros [= <-]. split.
  - apply is_dir_true. exists []. by rewrite lookup_insert_eq.
  - rewrite ListConf_unfold. cbn [fst]. rewrite Path_parent_str.
    unfold listing. rewrite lookup_insert_ne, lookup_insert_eq by done.
    cbn [default]. apply list_elem_of_fmap.
    exists (Path d_path). split; [done|].
    apply list_elem_of_fmap. exists (name (Path d_path)).
    split; [by rewrite child_parent_name|].
    apply list_elem_of_In, filter_In. split.
    + apply in_or_app. right. by left.
    + by apply fnmatch_conf.
Qed.

Lemma ListConf_lists_directories_witness :
  str "/tmp/site.conf"
  ∈ (ListConf (str "/tmp")
       (listing (<[str "/tmp/site.conf" := Dir []]>
                   (<[str "/tmp" := Dir [str "notes"; str "site.conf"]]> tree_tmp)))).1.
Proof.
  apply (ListConf_lists_directories (str "/tmp/site.conf") tree_tmp _ [str "notes"]).
  - vm_compute. discriminate.
  - exists (str "site"). reflexivity.
  - reflexivity.
  - reflexivity.
  - reflexivity.
Defined.

End DirsProofs.
